(** * Options of the AnalysisRun builder (internal/rollouts/options.go)

    A shallow embedding of the functional options that configure the build of
    an AnalysisRun, and the properties of the accumulator they are folded
    into.

    Go strings are byte sequences: [len] counts bytes and [s[lo:hi]] cuts
    bytes, so a Go string is a [string] here (a list of 8-bit characters).
    Go maps are references: the zero value is nil, assignment copies the
    reference, and [maps.Copy] writes through it.  Map values therefore live
    in a store, and a map-typed field holds [None] (nil) or a location. *)

From Stdlib Require Import ZArith Lia Ascii.
From stdpp Require Import base option list strings gmap.

Local Open Scope Z_scope.

Module Rollouts.

(** ** Constants *)

Definition ulidLength : Z := 26.
Definition maxNameSuffixLength : Z := 7.
Definition maxNamePrefixLength : Z :=
  253 - (1 + ulidLength) - (1 + maxNameSuffixLength).

(** ** Strings *)

(** [len(s)]: the number of bytes of [s], an [int]. *)
Definition len (s : string) : Z := Z.of_nat (String.length s).

(** [s[lo:hi]] for [0 <= lo <= hi <= len(s)]; Go panics outside that range,
    and every use below is guarded by a test on [len]. *)
Definition slice (s : string) (lo hi : Z) : string :=
  String.substring (Z.to_nat lo) (Z.to_nat (hi - lo)) s.

(** ** Maps and the store they live in *)

Definition loc := positive.

(** A value of type [map[string]string]: nil or a reference. *)
Definition mapref := option loc.

Abbreviation labels := (gmap string string).
Abbreviation heap := (gmap loc (gmap string string)).

(** The entries seen when reading through a reference; a nil map reads as
    empty. *)
Definition contents (h : heap) (m : mapref) : labels :=
  match m with
  | None => ∅
  | Some l => default ∅ (h !! l)
  end.

(** [dst[k] = v] *)
Definition map_store (dst : loc) (k v : string) (h : heap) : heap :=
  <[dst := <[k := v]> (contents h (Some dst))]> h.

(** [maps.Copy(dst, src)]: [for k, v := range src { dst[k] = v }]. *)
Definition maps_Copy (dst : loc) (src : mapref) (h : heap) : heap :=
  map_fold (map_store dst) h (contents h src).

(** ** Data model *)

Record NamespacedName := mkNamespacedName {
  Namespace : string;
  Name : string
}.

Record Owner := mkOwner {
  APIVersion : string;
  Kind : string;
  Reference : NamespacedName;
  BlockDeletion : bool
}.

Record AnalysisRunOptions := mkAnalysisRunOptions {
  NamePrefix : string;
  NameSuffix : string;
  ExtraLabels : mapref;
  Owners : list Owner
}.

(** The zero value of the struct. *)
Definition zero : AnalysisRunOptions :=
  {| NamePrefix := ""; NameSuffix := ""; ExtraLabels := None; Owners := [] |}.

(** What a method with receiver [*AnalysisRunOptions] can read and write:
    the pointed-to struct and the store of maps. *)
Record State := mkState {
  mem : heap;
  acc : AnalysisRunOptions
}.

(** The implementations of the interface [AnalysisRunOption]. *)
Inductive AnalysisRunOption :=
  | WithNamePrefix (o : string)
  | WithNameSuffix (o : string)
  | WithExtraLabels (o : mapref)
  | WithOwner (o : Owner).

(** ** Operations *)

Definition WithNamePrefix_ApplyToAnalysisRun (o : string) (st : State) : State :=
  let prefix := o in
  let prefix :=
    if len prefix >? maxNamePrefixLength
    then slice prefix 0 maxNamePrefixLength
    else prefix in
  let opts := acc st in
  {| mem := mem st;
     acc := {| NamePrefix := prefix;
               NameSuffix := NameSuffix opts;
               ExtraLabels := ExtraLabels opts;
               Owners := Owners opts |} |}.

Definition WithNameSuffix_ApplyToAnalysisRun (o : string) (st : State) : State :=
  let suffix := o in
  let suffix :=
    if len suffix >? maxNameSuffixLength
    then slice suffix 0 maxNameSuffixLength
    else suffix in
  let opts := acc st in
  {| mem := mem st;
     acc := {| NamePrefix := NamePrefix opts;
               NameSuffix := suffix;
               ExtraLabels := ExtraLabels opts;
               Owners := Owners opts |} |}.

Definition WithExtraLabels_ApplyToAnalysisRun (o : mapref) (st : State) : State :=
  let opts := acc st in
  match ExtraLabels opts with
  | Some dst => {| mem := maps_Copy dst o (mem st); acc := opts |}
  | None =>
      {| mem := mem st;
         acc := {| NamePrefix := NamePrefix opts;
                   NameSuffix := NameSuffix opts;
                   ExtraLabels := o;
                   Owners := Owners opts |} |}
  end.

Definition WithOwner_ApplyToAnalysisRun (o : Owner) (st : State) : State :=
  let opts := acc st in
  {| mem := mem st;
     acc := {| NamePrefix := NamePrefix opts;
               NameSuffix := NameSuffix opts;
               ExtraLabels := ExtraLabels opts;
               Owners := Owners opts ++ [o] |} |}.

(** Dynamic dispatch of [opt.ApplyToAnalysisRun(o)]. *)
Definition ApplyToAnalysisRun (opt : AnalysisRunOption) : State → State :=
  match opt with
  | WithNamePrefix o => WithNamePrefix_ApplyToAnalysisRun o
  | WithNameSuffix o => WithNameSuffix_ApplyToAnalysisRun o
  | WithExtraLabels o => WithExtraLabels_ApplyToAnalysisRun o
  | WithOwner o => WithOwner_ApplyToAnalysisRun o
  end.

(** [for _, opt := range opts { opt.ApplyToAnalysisRun(o) }] *)
Fixpoint Apply (opts : list AnalysisRunOption) (st : State) : State :=
  match opts with
  | [] => st
  | opt :: rest => Apply rest (ApplyToAnalysisRun opt st)
  end.

(** The accumulator a caller starts from: [&AnalysisRunOptions{}], with the
    maps the caller has built so far in the store. *)
Definition fresh (h : heap) : State := {| mem := h; acc := zero |}.

(** ** Vocabulary of the statements *)

(** The owners carried by the [WithOwner] options of a sequence, in order. *)
Fixpoint owners_of (opts : list AnalysisRunOption) : list Owner :=
  match opts with
  | [] => []
  | WithOwner o :: rest => o :: owners_of rest
  | _ :: rest => owners_of rest
  end.

Definition is_WithOwner (opt : AnalysisRunOption) : bool :=
  match opt with WithOwner _ => true | _ => false end.

(** How many [WithOwner] options a sequence holds. *)
Definition count_WithOwner (opts : list AnalysisRunOption) : nat :=
  length (List.filter is_WithOwner opts).

Definition is_WithNamePrefix (opt : AnalysisRunOption) : bool :=
  match opt with WithNamePrefix _ => true | _ => false end.

Definition is_WithNameSuffix (opt : AnalysisRunOption) : bool :=
  match opt with WithNameSuffix _ => true | _ => false end.

(** [n] copies of the byte [c]. *)
Fixpoint repeat_byte (c : ascii) (n : nat) : string :=
  match n with
  | O => EmptyString
  | S n' => String c (repeat_byte c n')
  end.

(** The limits an accumulator built by options stays within. *)
Definition capped (o : AnalysisRunOptions) : Prop :=
  len (NamePrefix o) <= maxNamePrefixLength ∧
  len (NameSuffix o) <= maxNameSuffixLength.

(** The first non-nil map carried by a [WithExtraLabels] option. *)
Fixpoint first_labels (opts : list AnalysisRunOption) : mapref :=
  match opts with
  | [] => None
  | WithExtraLabels (Some l) :: _ => Some l
  | _ :: rest => first_labels rest
  end.

(** Whether an option is a [WithExtraLabels] carrying the map at [d]. *)
Definition carries_map (d : loc) (opt : AnalysisRunOption) : bool :=
  match opt with
  | WithExtraLabels (Some l) => Pos.eqb l d
  | _ => false
  end.

(** The entries of the maps carried by the [WithExtraLabels] options of a
    sequence, read in the store [h] and laid over [base] one after the other,
    a later map over the earlier ones. *)
Fixpoint merged (h : heap) (opts : list AnalysisRunOption) (base : labels) : labels :=
  match opts with
  | [] => base
  | WithExtraLabels m :: rest => merged h rest (contents h m ∪ base)
  | _ :: rest => merged h rest base
  end.

(** Whether two options are of the same type. *)
Definition same_kind (a b : AnalysisRunOption) : bool :=
  match a, b with
  | WithNamePrefix _, WithNamePrefix _ => true
  | WithNameSuffix _, WithNameSuffix _ => true
  | WithExtraLabels _, WithExtraLabels _ => true
  | WithOwner _, WithOwner _ => true
  | _, _ => false
  end.

(** ** The run-time checks made explicit

    The same methods with the two checks the Go run time makes on them, a
    failed check being [None]: the bounds of a slice expression, and the
    assignment to an entry of a nil map. *)

(** [s[lo:hi]], panicking unless [0 <= lo <= hi <= len(s)]. *)
Definition slice_checked (s : string) (lo hi : Z) : option string :=
  if (0 <=? lo) && (lo <=? hi) && (hi <=? len s)
  then Some (slice s lo hi)
  else None.

(** [dst[k] = v], panicking when [dst] is nil. *)
Definition map_store_checked (dst : mapref) (k v : string) (h : heap) : option heap :=
  match dst with
  | None => None
  | Some d => Some (map_store d k v h)
  end.

(** [maps.Copy(dst, src)]: [for k, v := range src { dst[k] = v }]. *)
Definition maps_Copy_checked (dst src : mapref) (h : heap) : option heap :=
  map_fold (λ k v r, r ≫= map_store_checked dst k v) (Some h) (contents h src).

Definition ApplyToAnalysisRun_checked (opt : AnalysisRunOption) (st : State)
    : option State :=
  let opts := acc st in
  match opt with
  | WithNamePrefix o =>
      prefix ← (if len o >? maxNamePrefixLength
                then slice_checked o 0 maxNamePrefixLength
                else Some o);
      Some {| mem := mem st;
              acc := {| NamePrefix := prefix;
                        NameSuffix := NameSuffix opts;
                        ExtraLabels := ExtraLabels opts;
                        Owners := Owners opts |} |}
  | WithNameSuffix o =>
      suffix ← (if len o >? maxNameSuffixLength
                then slice_checked o 0 maxNameSuffixLength
                else Some o);
      Some {| mem := mem st;
              acc := {| NamePrefix := NamePrefix opts;
                        NameSuffix := suffix;
                        ExtraLabels := ExtraLabels opts;
                        Owners := Owners opts |} |}
  | WithExtraLabels o =>
      match ExtraLabels opts with
      | Some _ =>
          h' ← maps_Copy_checked (ExtraLabels opts) o (mem st);
          Some {| mem := h'; acc := opts |}
      | None =>
          Some {| mem := mem st;
                  acc := {| NamePrefix := NamePrefix opts;
                            NameSuffix := NameSuffix opts;
                            ExtraLabels := o;
                            Owners := Owners opts |} |}
      end
  | WithOwner o =>
      Some {| mem := mem st;
              acc := {| NamePrefix := NamePrefix opts;
                        NameSuffix := NameSuffix opts;
                        ExtraLabels := ExtraLabels opts;
                        Owners := Owners opts ++ [o] |} |}
  end.

Fixpoint Apply_checked (opts : list AnalysisRunOption) (st : State) : option State :=
  match opts with
  | [] => Some st
  | opt :: rest => ApplyToAnalysisRun_checked opt st ≫= Apply_checked rest
  end.

(** ** Leading substrings *)

Lemma substring0_app (n : nat) (s : string) :
  ∃ rest, s = String.substring 0 n s +:+ rest.
Proof.
  revert s. induction n as [|n IH]; intros [|c s]; simpl.
  - by exists "".
  - by exists (String c s).
  - by exists "".
  - destruct (IH s) as [rest Hrest]. exists rest.
    change (String c s = String c (String.substring 0 n s +:+ rest)).
    by f_equal.
Qed.

Lemma substring0_length (n : nat) (s : string) :
  (n <= String.length s)%nat → String.length (String.substring 0 n s) = n.
Proof.
  revert s. induction n as [|n IH]; intros [|c s]; simpl; intros Hn;
    try reflexivity; try lia.
  rewrite IH; [reflexivity | lia].
Qed.

(** The guarded cut shared by the prefix and the suffix option. *)
Lemma guarded_slice (s : string) (n : Z) :
  0 <= n →
  let p := if len s >? n then slice s 0 n else s in
  (len s <= n → p = s) ∧
  (n < len s → len p = n ∧ ∃ rest, s = p +:+ rest) ∧
  len p <= n.
Proof.
  intros Hn p. subst p. unfold slice, len.
  rewrite Z.gtb_ltb. destruct (Z.ltb_spec n (Z.of_nat (String.length s))) as [Hlt|Hge].
  - assert (Hcut : String.length
        (String.substring (Z.to_nat 0) (Z.to_nat (n - 0)) s) = Z.to_nat n).
    { change (Z.to_nat 0) with 0%nat. rewrite Z.sub_0_r.
      apply substring0_length. lia. }
    repeat split.
    + lia.
    + rewrite Hcut. lia.
    + change (Z.to_nat 0) with 0%nat. apply substring0_app.
    + rewrite Hcut. lia.
  - split; [done|]. split; [lia | exact Hge].
Qed.

(** ** [maps.Copy] *)

Lemma maps_Copy_fold (dst : loc) (h : heap) (src : labels) :
  let h' := map_fold (map_store dst) h src in
  contents h' (Some dst) = src ∪ contents h (Some dst) ∧
  ∀ l, l ≠ dst → h' !! l = h !! l.
Proof.
  apply (map_fold_weak_ind (λ (h' : heap) (src : labels),
    contents h' (Some dst) = src ∪ contents h (Some dst) ∧
    ∀ l, l ≠ dst → h' !! l = h !! l)).
  - split; [by rewrite (left_id_L ∅ (∪)) | done].
  - intros k v m r Hk [IHc IHo]. unfold map_store. split.
    + simpl. rewrite lookup_insert_eq. simpl.
      simpl in IHc. rewrite IHc. by rewrite insert_union_l.
    + intros l Hl. rewrite lookup_insert_ne by done. by apply IHo.
Qed.

Lemma maps_Copy_contents (dst : loc) (src : mapref) (h : heap) :
  contents (maps_Copy dst src h) (Some dst)
  = contents h src ∪ contents h (Some dst).
Proof. apply maps_Copy_fold. Qed.

Lemma maps_Copy_other (dst : loc) (src : mapref) (h : heap) (l : loc) :
  l ≠ dst → maps_Copy dst src h !! l = h !! l.
Proof. apply maps_Copy_fold. Qed.

(** ** One option at a time *)

(** The labels of the accumulator after a labels option: the payload's
    entries over the ones the accumulator had. *)
Lemma WithExtraLabels_contents (o : mapref) (st : State) :
  let st' := ApplyToAnalysisRun (WithExtraLabels o) st in
  contents (mem st') (ExtraLabels (acc st'))
  = contents (mem st) o ∪ contents (mem st) (ExtraLabels (acc st)).
Proof.
  simpl. unfold WithExtraLabels_ApplyToAnalysisRun.
  destruct (ExtraLabels (acc st)) as [dst|] eqn:E; simpl.
  - rewrite E. apply maps_Copy_contents.
  - by rewrite (right_id_L ∅ (∪)).
Qed.

Lemma step_capped (opt : AnalysisRunOption) (st : State) :
  capped (acc st) → capped (acc (ApplyToAnalysisRun opt st)).
Proof.
  intros [Hp Hs]. destruct opt as [o|o|o|o]; simpl.
  - split; [|exact Hs]. simpl.
    apply (guarded_slice o maxNamePrefixLength). by vm_compute.
  - split; [exact Hp|]. simpl.
    apply (guarded_slice o maxNameSuffixLength). by vm_compute.
  - unfold WithExtraLabels_ApplyToAnalysisRun.
    destruct (ExtraLabels (acc st)); by split.
  - by split.
Qed.

Lemma step_keeps_labels_ref (opt : AnalysisRunOption) (st : State) (d : loc) :
  ExtraLabels (acc st) = Some d →
  ExtraLabels (acc (ApplyToAnalysisRun opt st)) = Some d.
Proof.
  intros E. destruct opt as [o|o|o|o]; simpl; try done.
  unfold WithExtraLabels_ApplyToAnalysisRun. by rewrite E.
Qed.

(** ** Sequences of options *)

Lemma Apply_app (a b : list AnalysisRunOption) (st : State) :
  Apply (a ++ b) st = Apply b (Apply a st).
Proof. revert st. induction a as [|opt a IH]; intros st; simpl; [done | apply IH]. Qed.

Lemma Apply_capped (opts : list AnalysisRunOption) (st : State) :
  capped (acc st) → capped (acc (Apply opts st)).
Proof.
  revert st. induction opts as [|opt opts IH]; intros st H; simpl; [done|].
  apply IH. by apply step_capped.
Qed.

Lemma Apply_keeps_labels_ref (opts : list AnalysisRunOption) (st : State) (d : loc) :
  ExtraLabels (acc st) = Some d → ExtraLabels (acc (Apply opts st)) = Some d.
Proof.
  revert st. induction opts as [|opt opts IH]; intros st H; simpl; [done|].
  apply IH. by apply step_keeps_labels_ref.
Qed.

Lemma Apply_Owners (opts : list AnalysisRunOption) (st : State) :
  Owners (acc (Apply opts st)) = Owners (acc st) ++ owners_of opts.
Proof.
  revert st. induction opts as [|opt opts IH]; intros st; simpl.
  - by rewrite app_nil_r.
  - rewrite IH. destruct opt as [o|o|o|o]; simpl; try done.
    + unfold WithExtraLabels_ApplyToAnalysisRun.
      by destruct (ExtraLabels (acc st)).
    + by rewrite <- app_assoc.
Qed.

Lemma owners_of_length (opts : list AnalysisRunOption) :
  length (owners_of opts) = count_WithOwner opts.
Proof.
  unfold count_WithOwner.
  induction opts as [|[o|o|o|o] opts IH]; simpl; congruence.
Qed.

Lemma Apply_no_prefix (opts : list AnalysisRunOption) (st : State) :
  forallb (λ opt, negb (is_WithNamePrefix opt)) opts = true →
  NamePrefix (acc (Apply opts st)) = NamePrefix (acc st).
Proof.
  revert st. induction opts as [|opt opts IH]; intros st H; simpl; [done|].
  simpl in H. apply andb_prop in H as [Ho H]. rewrite IH by done.
  destruct opt as [o|o|o|o]; simpl; try done.
  unfold WithExtraLabels_ApplyToAnalysisRun. by destruct (ExtraLabels (acc st)).
Qed.

Lemma Apply_no_suffix (opts : list AnalysisRunOption) (st : State) :
  forallb (λ opt, negb (is_WithNameSuffix opt)) opts = true →
  NameSuffix (acc (Apply opts st)) = NameSuffix (acc st).
Proof.
  revert st. induction opts as [|opt opts IH]; intros st H; simpl; [done|].
  simpl in H. apply andb_prop in H as [Ho H]. rewrite IH by done.
  destruct opt as [o|o|o|o]; simpl; try done.
  unfold WithExtraLabels_ApplyToAnalysisRun. by destruct (ExtraLabels (acc st)).
Qed.

(** ** The name stays within the platform's limit *)

(** C1. Whatever options are applied to a zero-valued accumulator, the name
    built from it fits: len(NamePrefix) + 1 + 26 + 1 + len(NameSuffix) <= 253,
    the prefix being capped at maxNamePrefixLength = 218 and the suffix at
    maxNameSuffixLength = 7. *)
Theorem name_length_within_limit (opts : list AnalysisRunOption) (h : heap) :
  let o := acc (Apply opts (fresh h)) in
  len (NamePrefix o) + 1 + 26 + 1 + len (NameSuffix o) <= 253 ∧
  len (NamePrefix o) <= 218 ∧
  len (NameSuffix o) <= 7 ∧
  maxNamePrefixLength = 218 ∧
  maxNameSuffixLength = 7.
Proof.
  intros o.
  assert (H : capped o).
  { apply Apply_capped. split; by vm_compute. }
  destruct H as [Hp Hs].
  change maxNamePrefixLength with 218 in *.
  change maxNameSuffixLength with 7 in *.
  repeat split; lia.
Qed.

(** ** Truncation of the prefix and of the suffix *)

(** C2. WithNamePrefix sets NamePrefix to its input when the input is at most
    218 bytes long, and to the first 218 bytes of the input otherwise: the
    stored string has length 218 and the input starts with it.  260 bytes 'x'
    become 218 bytes 'x'. *)
Theorem WithNamePrefix_truncates (s : string) (st : State) :
  let p := NamePrefix (acc (ApplyToAnalysisRun (WithNamePrefix s) st)) in
  (len s <= 218 → p = s) ∧
  (218 < len s → len p = 218 ∧ ∃ rest, s = p +:+ rest) ∧
  NamePrefix (acc (ApplyToAnalysisRun (WithNamePrefix (repeat_byte "x"%char 260)) st))
  = repeat_byte "x"%char 218.
Proof.
  intros p. subst p. simpl.
  destruct (guarded_slice s maxNamePrefixLength) as (Hle & Hgt & _);
    [by vm_compute|].
  change maxNamePrefixLength with 218 in Hle, Hgt.
  split; [exact Hle|]. split; [exact Hgt|].
  by vm_compute.
Qed.

Lemma WithNamePrefix_truncates_witness :
  NamePrefix (acc (ApplyToAnalysisRun (WithNamePrefix "stage-test")
                     (fresh ∅))) = "stage-test" ∧
  len (NamePrefix (acc (ApplyToAnalysisRun
                     (WithNamePrefix (repeat_byte "y"%char 219)) (fresh ∅)))) = 218.
Proof.
  split.
  - destruct (WithNamePrefix_truncates "stage-test" (fresh ∅)) as (Hle & _).
    apply Hle. by vm_compute.
  - destruct (WithNamePrefix_truncates (repeat_byte "y"%char 219) (fresh ∅))
      as (_ & Hgt & _).
    apply Hgt. by vm_compute.
Defined.

(** C3. WithNameSuffix sets NameSuffix to its input when the input is at most
    7 bytes long, and to the first 7 bytes of the input otherwise: the stored
    string has length 7 and the input starts with it.  "abcdef12" becomes
    "abcdef1". *)
Theorem WithNameSuffix_truncates (s : string) (st : State) :
  let p := NameSuffix (acc (ApplyToAnalysisRun (WithNameSuffix s) st)) in
  (len s <= 7 → p = s) ∧
  (7 < len s → len p = 7 ∧ ∃ rest, s = p +:+ rest) ∧
  NameSuffix (acc (ApplyToAnalysisRun (WithNameSuffix "abcdef12") st))
  = "abcdef1".
Proof.
  intros p. subst p. simpl.
  destruct (guarded_slice s maxNameSuffixLength) as (Hle & Hgt & _);
    [by vm_compute|].
  change maxNameSuffixLength with 7 in Hle, Hgt.
  split; [exact Hle|]. split; [exact Hgt|].
  by vm_compute.
Qed.

Lemma WithNameSuffix_truncates_witness :
  NameSuffix (acc (ApplyToAnalysisRun (WithNameSuffix "abcdef1")
                     (fresh ∅))) = "abcdef1" ∧
  len (NameSuffix (acc (ApplyToAnalysisRun
                     (WithNameSuffix "0123456789") (fresh ∅)))) = 7.
Proof.
  split.
  - destruct (WithNameSuffix_truncates "abcdef1" (fresh ∅)) as (Hle & _).
    apply Hle. by vm_compute.
  - destruct (WithNameSuffix_truncates "0123456789" (fresh ∅))
      as (_ & Hgt & _).
    apply Hgt. by vm_compute.
Defined.

(** ** Labels *)

(** C4. WithExtraLabels m1 then WithExtraLabels m2: every key of m2 has m2's
    value, and every key of m1 that m2 lacks keeps m1's value.  The
    accumulator is a zero-valued one or any other whose map is not the very
    map m2 refers to.  {"a":"1"} then {"a":"2","b":"3"} on a zero-valued
    accumulator gives {"a":"2","b":"3"}. *)
Theorem WithExtraLabels_later_wins (st : State) (m1 m2 : mapref) :
  ExtraLabels (acc st) = None ∨ ExtraLabels (acc st) ≠ m2 →
  let st' := Apply [WithExtraLabels m1; WithExtraLabels m2] st in
  let result := contents (mem st') (ExtraLabels (acc st')) in
  (∀ k v, contents (mem st) m2 !! k = Some v → result !! k = Some v) ∧
  (∀ k v, contents (mem st) m2 !! k = None →
          contents (mem st) m1 !! k = Some v → result !! k = Some v) ∧
  (∀ (l1 l2 : loc) (h0 : heap), l1 ≠ l2 →
     let h := <[l2 := <["a" := "2"]> {["b" := "3"]}]>
                (<[l1 := {["a" := "1"]}]> h0) in
     let st2 := Apply [WithExtraLabels (Some l1); WithExtraLabels (Some l2)]
                  (fresh h) in
     contents (mem st2) (ExtraLabels (acc st2))
     = <["a" := "2"]> {["b" := "3"]}).
Proof.
  assert (Hmerge : ∀ (s0 : State) (a b : mapref),
    ExtraLabels (acc s0) = None ∨ ExtraLabels (acc s0) ≠ b →
    let s2 := Apply [WithExtraLabels a; WithExtraLabels b] s0 in
    contents (mem s2) (ExtraLabels (acc s2))
    = contents (mem s0) b ∪ (contents (mem s0) a
                             ∪ contents (mem s0) (ExtraLabels (acc s0)))).
  { intros s0 a b Hfree s2. subst s2. cbn [Apply].
    rewrite (WithExtraLabels_contents b
               (ApplyToAnalysisRun (WithExtraLabels a) s0)).
    rewrite (WithExtraLabels_contents a s0). f_equal.
    simpl. unfold WithExtraLabels_ApplyToAnalysisRun.
    destruct (ExtraLabels (acc s0)) as [d|] eqn:E; [|done].
    destruct Hfree as [?|Hne]; [done|].
    destruct b as [l|]; [|done]. simpl.
    rewrite maps_Copy_other; [done | congruence]. }
  intros Hfree st' result. subst result st'. rewrite (Hmerge _ _ _ Hfree).
  split; [|split].
  - intros k v Hk. by apply lookup_union_Some_l.
  - intros k v Hk2 Hk1. rewrite lookup_union_r by done.
    by apply lookup_union_Some_l.
  - intros l1 l2 h0 Hne h st2. subst st2. rewrite Hmerge by by left.
    subst h. simpl.
    rewrite lookup_insert_eq, lookup_insert_ne, lookup_insert_eq by done.
    simpl. rewrite (right_id_L ∅ (∪)).
    apply map_eq. intros k. rewrite lookup_union.
    destruct (decide (k = "a")) as [->|Ha]; [by simplify_map_eq|].
    rewrite (lookup_singleton_ne "a" k) by done.
    by rewrite (right_id_L None union).
Qed.

Lemma WithExtraLabels_later_wins_witness :
  let h : heap :=
    <[2%positive := <["a" := "2"]> {["b" := "3"]}]>
      (<[1%positive := <["a" := "1"]> {["c" := "4"]}]> ∅) in
  let st := Apply [WithExtraLabels (Some 1%positive);
                   WithExtraLabels (Some 2%positive)] (fresh h) in
  (ExtraLabels (acc (fresh h)) = None
   ∨ ExtraLabels (acc (fresh h)) ≠ Some 2%positive) ∧
  contents h (Some 2%positive) !! "a" = Some "2" ∧
  contents (mem st) (ExtraLabels (acc st)) !! "a" = Some "2" ∧
  contents h (Some 2%positive) !! "c" = None ∧
  contents h (Some 1%positive) !! "c" = Some "4" ∧
  contents (mem st) (ExtraLabels (acc st)) !! "c" = Some "4".
Proof.
  intros h st.
  assert (Hfree : ExtraLabels (acc (fresh h)) = None
                  ∨ ExtraLabels (acc (fresh h)) ≠ Some 2%positive)
    by (left; reflexivity).
  destruct (WithExtraLabels_later_wins (fresh h) (Some 1%positive)
              (Some 2%positive) Hfree) as (Hin & Hout & _).
  assert (Ha : contents h (Some 2%positive) !! "a" = Some "2") by by vm_compute.
  assert (Hc2 : contents h (Some 2%positive) !! "c" = None) by by vm_compute.
  assert (Hc1 : contents h (Some 1%positive) !! "c" = Some "4") by by vm_compute.
  split; [exact Hfree|]. split; [exact Ha|]. split; [exact (Hin "a" "2" Ha)|].
  split; [exact Hc2|]. split; [exact Hc1|]. exact (Hout "c" "4" Hc2 Hc1).
Defined.

(** When the second option carries the accumulator's own map, copying it onto
    itself changes nothing, and what the first option wrote stays. *)
Example WithExtraLabels_own_map :
  let h : heap :=
    <[2%positive := {["a" := "1"]}]> (<[1%positive := {["a" := "0"]}]> ∅) in
  let st := {| mem := h;
               acc := {| NamePrefix := ""; NameSuffix := "";
                         ExtraLabels := Some 1%positive; Owners := [] |} |} in
  let st' := Apply [WithExtraLabels (Some 2%positive);
                    WithExtraLabels (Some 1%positive)] st in
  contents h (Some 1%positive) !! "a" = Some "0" ∧
  contents (mem st') (ExtraLabels (acc st')) !! "a" = Some "1".
Proof. by vm_compute. Qed.

(** C6, as the code has it. Once a WithExtraLabels option with a non-nil map
    has been applied, ExtraLabels is not nil, whatever else is applied and in
    whatever order; and when every WithExtraLabels option applied carries a
    nil map, an unset ExtraLabels stays nil. *)
Theorem ExtraLabels_not_nil (opts : list AnalysisRunOption) (st : State) :
  (∀ l : loc, WithExtraLabels (Some l) ∈ opts →
     ExtraLabels (acc (Apply opts st)) ≠ None) ∧
  (ExtraLabels (acc st) = None →
   (∀ m : mapref, WithExtraLabels m ∈ opts → m = None) →
   ExtraLabels (acc (Apply opts st)) = None).
Proof.
  split.
  - intros l. revert st. induction opts as [|opt opts IH]; intros st Hin.
    + by apply elem_of_nil in Hin.
    + simpl. apply elem_of_cons in Hin as [<-|Hin]; [|by apply IH].
      simpl. unfold WithExtraLabels_ApplyToAnalysisRun.
      destruct (ExtraLabels (acc st)) as [d|] eqn:E.
      * rewrite (Apply_keeps_labels_ref opts _ d); done.
      * rewrite (Apply_keeps_labels_ref opts _ l); done.
  - revert st. induction opts as [|opt opts IH]; intros st E Hnil; [done|].
    simpl. apply IH.
    + destruct opt as [o|o|o|o]; simpl; try done.
      unfold WithExtraLabels_ApplyToAnalysisRun. rewrite E. simpl.
      apply Hnil. apply elem_of_cons. by left.
    + intros m Hm. apply Hnil. apply elem_of_cons. by right.
Qed.

Lemma ExtraLabels_not_nil_witness :
  let o1 := {| APIVersion := "v1"; Kind := "Stage";
               Reference := {| Namespace := "ns"; Name := "n" |};
               BlockDeletion := true |} in
  let some := [WithNamePrefix "p"; WithExtraLabels None;
               WithExtraLabels (Some 1%positive)] in
  let none := [WithOwner o1; WithExtraLabels None; WithNameSuffix "s";
               WithExtraLabels None] in
  let h : heap := {[1%positive := {["a" := "1"]}]} in
  WithExtraLabels (Some 1%positive) ∈ some ∧
  ExtraLabels (acc (Apply some (fresh h))) ≠ None ∧
  ExtraLabels (acc (fresh h)) = None ∧
  (∀ m : mapref, WithExtraLabels m ∈ none → m = None) ∧
  ExtraLabels (acc (Apply none (fresh h))) = None.
Proof.
  intros o1 some none h.
  assert (Hin : WithExtraLabels (Some 1%positive) ∈ some).
  { apply elem_of_cons. right. apply elem_of_cons. right. apply elem_of_cons. by left. }
  assert (Hnil : ∀ m : mapref, WithExtraLabels m ∈ none → m = None).
  { intros m Hm. unfold none in Hm.
    repeat (apply elem_of_cons in Hm as [Hm|Hm]; [congruence|]).
    by apply elem_of_nil in Hm. }
  destruct (ExtraLabels_not_nil some (fresh h)) as (Hsome & _).
  destruct (ExtraLabels_not_nil none (fresh h)) as (_ & Hnone).
  split; [exact Hin|]. split; [exact (Hsome 1%positive Hin)|].
  split; [reflexivity|]. split; [exact Hnil|].
  exact (Hnone eq_refl Hnil).
Defined.

(** C6, as stated, fails: a WithExtraLabels option carrying a nil map,
    applied to a zero-valued accumulator, leaves ExtraLabels nil. *)
Lemma ExtraLabels_nil_payload_stays_nil :
  ¬ (∀ (opts : list AnalysisRunOption) (h : heap),
       (∃ m, WithExtraLabels m ∈ opts) →
       ExtraLabels (acc (Apply opts (fresh h))) ≠ None).
Proof.
  intros H. apply (H [WithExtraLabels None] ∅); [|reflexivity].
  exists None. apply elem_of_cons. by left.
Qed.

(** ** Owners *)

(** C5. After any sequence of options on a zero-valued accumulator, Owners
    holds exactly the records of the WithOwner options, in the order they were
    applied, as many as there were such options; two equal owners are both
    kept.  On any other accumulator they come after the owners it had. *)
Theorem Owners_in_application_order (opts : list AnalysisRunOption) (h : heap) :
  let o := acc (Apply opts (fresh h)) in
  Owners o = owners_of opts ∧
  length (Owners o) = count_WithOwner opts ∧
  (∀ o1 o2 : Owner,
     Owners (acc (Apply [WithOwner o1; WithOwner o2] (fresh h))) = [o1; o2]) ∧
  (∀ o1 : Owner,
     Owners (acc (Apply [WithOwner o1; WithOwner o1] (fresh h))) = [o1; o1]) ∧
  (∀ st : State,
     Owners (acc (Apply opts st)) = Owners (acc st) ++ owners_of opts).
Proof.
  intros o. subst o. rewrite Apply_Owners. simpl.
  split; [done|]. split; [apply owners_of_length|].
  split; [done|]. split; [done|]. intros st. apply Apply_Owners.
Qed.

(** ** Apply *)

(** C7. Apply with no options changes nothing; on a zero-valued accumulator
    the prefix and the suffix stay empty, the labels nil and the owners
    empty. *)
Theorem Apply_no_options (st : State) (h : heap) :
  Apply [] st = st ∧
  let o := acc (Apply [] (fresh h)) in
  NamePrefix o = "" ∧ NameSuffix o = "" ∧ ExtraLabels o = None ∧ Owners o = [] ∧
  mem (Apply [] (fresh h)) = h.
Proof. by repeat split. Qed.

(** C8. Apply takes the options one by one in the order given, each applied
    to what the ones before it left, and for the prefix and the suffix the
    last one applied wins: with p1 and then p2 among the options and no
    prefix option after p2, NamePrefix is what p2 alone gives, that is p2
    itself when p2 has at most 218 bytes and the first 218 bytes of p2
    otherwise; the same for the suffix, with 7. *)
Theorem Apply_in_order_last_wins
    (a b c : list AnalysisRunOption) (p1 p2 : string) (st : State) :
  (∀ opt rest, Apply (opt :: rest) st = Apply rest (ApplyToAnalysisRun opt st)) ∧
  (∀ front opt, Apply (front ++ [opt]) st = ApplyToAnalysisRun opt (Apply front st)) ∧
  (forallb (λ opt, negb (is_WithNamePrefix opt)) c = true →
     let final :=
       NamePrefix (acc (Apply (a ++ WithNamePrefix p1 :: b
                                 ++ WithNamePrefix p2 :: c) st)) in
     final = NamePrefix (acc (Apply [WithNamePrefix p2] st)) ∧
     (len p2 <= 218 → final = p2) ∧
     (218 < len p2 → len final = 218 ∧ ∃ rest, p2 = final +:+ rest)) ∧
  (forallb (λ opt, negb (is_WithNameSuffix opt)) c = true →
     let final :=
       NameSuffix (acc (Apply (a ++ WithNameSuffix p1 :: b
                                 ++ WithNameSuffix p2 :: c) st)) in
     final = NameSuffix (acc (Apply [WithNameSuffix p2] st)) ∧
     (len p2 <= 7 → final = p2) ∧
     (7 < len p2 → len final = 7 ∧ ∃ rest, p2 = final +:+ rest)).
Proof.
  split; [done|]. split; [intros front opt; by rewrite Apply_app|].
  split; intros Hc final.
  - assert (Hfinal : final = if len p2 >? maxNamePrefixLength
                             then slice p2 0 maxNamePrefixLength else p2).
    { subst final. rewrite Apply_app. simpl Apply at 1. rewrite Apply_app. simpl.
      by rewrite Apply_no_prefix. }
    destruct (guarded_slice p2 maxNamePrefixLength) as (Hle & Hgt & _);
      [by vm_compute|].
    rewrite <- Hfinal in Hle, Hgt.
    change maxNamePrefixLength with 218 in Hle, Hgt.
    split; [exact Hfinal|]. by split.
  - assert (Hfinal : final = if len p2 >? maxNameSuffixLength
                             then slice p2 0 maxNameSuffixLength else p2).
    { subst final. rewrite Apply_app. simpl Apply at 1. rewrite Apply_app. simpl.
      by rewrite Apply_no_suffix. }
    destruct (guarded_slice p2 maxNameSuffixLength) as (Hle & Hgt & _);
      [by vm_compute|].
    rewrite <- Hfinal in Hle, Hgt.
    change maxNameSuffixLength with 7 in Hle, Hgt.
    split; [exact Hfinal|]. by split.
Qed.

Lemma Apply_in_order_last_wins_witness :
  let o1 := {| APIVersion := "v1"; Kind := "Stage";
               Reference := {| Namespace := "ns"; Name := "n" |};
               BlockDeletion := true |} in
  let a := [WithNameSuffix "s0"; WithNamePrefix "p0"] in
  let b := [WithOwner o1] in
  let c := [WithExtraLabels None; WithOwner o1] in
  forallb (λ opt, negb (is_WithNamePrefix opt)) c = true ∧
  len "second" <= 218 ∧
  NamePrefix (acc (Apply (a ++ WithNamePrefix "first" :: b
                            ++ WithNamePrefix "second" :: c) (fresh ∅)))
  = "second" ∧
  forallb (λ opt, negb (is_WithNameSuffix opt)) c = true ∧
  7 < len "0123456789" ∧
  len (NameSuffix (acc (Apply (a ++ WithNameSuffix "first" :: b
                                 ++ WithNameSuffix "0123456789" :: c) (fresh ∅))))
  = 7.
Proof.
  intros o1 a b c.
  destruct (Apply_in_order_last_wins a b c "first" "second" (fresh ∅))
    as (_ & _ & Hp & _).
  destruct (Apply_in_order_last_wins a b c "first" "0123456789" (fresh ∅))
    as (_ & _ & _ & Hs).
  assert (Hcp : forallb (λ opt, negb (is_WithNamePrefix opt)) c = true)
    by reflexivity.
  assert (Hcs : forallb (λ opt, negb (is_WithNameSuffix opt)) c = true)
    by reflexivity.
  assert (Hshort : len "second" <= 218) by by vm_compute.
  assert (Hlong : 7 < len "0123456789") by by vm_compute.
  destruct (Hp Hcp) as (_ & Hle & _).
  destruct (Hs Hcs) as (_ & _ & Hgt).
  split; [exact Hcp|]. split; [exact Hshort|]. split; [exact (Hle Hshort)|].
  split; [exact Hcs|]. split; [exact Hlong|]. exact (proj1 (Hgt Hlong)).
Defined.

(** C9. Each option touches its own field only: WithNamePrefix leaves
    NameSuffix, ExtraLabels (the reference and every map in the store) and
    Owners as they were; WithNameSuffix likewise for NamePrefix, ExtraLabels
    and Owners; WithExtraLabels leaves NamePrefix, NameSuffix and Owners;
    WithOwner leaves NamePrefix, NameSuffix and ExtraLabels. *)
Theorem options_frame (st : State) :
  (∀ s, let st' := ApplyToAnalysisRun (WithNamePrefix s) st in
     NameSuffix (acc st') = NameSuffix (acc st) ∧
     ExtraLabels (acc st') = ExtraLabels (acc st) ∧
     mem st' = mem st ∧
     Owners (acc st') = Owners (acc st)) ∧
  (∀ s, let st' := ApplyToAnalysisRun (WithNameSuffix s) st in
     NamePrefix (acc st') = NamePrefix (acc st) ∧
     ExtraLabels (acc st') = ExtraLabels (acc st) ∧
     mem st' = mem st ∧
     Owners (acc st') = Owners (acc st)) ∧
  (∀ m, let st' := ApplyToAnalysisRun (WithExtraLabels m) st in
     NamePrefix (acc st') = NamePrefix (acc st) ∧
     NameSuffix (acc st') = NameSuffix (acc st) ∧
     Owners (acc st') = Owners (acc st)) ∧
  (∀ o, let st' := ApplyToAnalysisRun (WithOwner o) st in
     NamePrefix (acc st') = NamePrefix (acc st) ∧
     NameSuffix (acc st') = NameSuffix (acc st) ∧
     ExtraLabels (acc st') = ExtraLabels (acc st) ∧
     mem st' = mem st).
Proof.
  split; [done|]. split; [done|]. split; [|done].
  intros m. simpl. unfold WithExtraLabels_ApplyToAnalysisRun.
  by destruct (ExtraLabels (acc st)).
Qed.

(** C10. Apply over a concatenation is Apply over the first part followed by
    Apply over the second, and Apply is the left fold of applying one
    option. *)
Theorem Apply_concat (a b : list AnalysisRunOption) (st : State) :
  Apply (a ++ b) st = Apply b (Apply a st) ∧
  Apply a st = fold_left (λ s opt, ApplyToAnalysisRun opt s) a st.
Proof.
  split; [apply Apply_app|].
  revert st. induction a as [|opt a IH]; intros st; simpl; [done | apply IH].
Qed.

(** ** More on [maps.Copy] *)

(** X1. After maps.Copy(dst, src) a key reads in dst as it does in src when
    src has it, and as it did in dst before otherwise; no other map of the
    store is written, so a src that is not dst itself reads as before. *)
Theorem maps_Copy_lookup (dst : loc) (src : mapref) (h : heap) (k : string) :
  contents (maps_Copy dst src h) (Some dst) !! k
  = match contents h src !! k with
    | Some v => Some v
    | None => contents h (Some dst) !! k
    end ∧
  (∀ l, l ≠ dst → maps_Copy dst src h !! l = h !! l) ∧
  (src ≠ Some dst → contents (maps_Copy dst src h) src = contents h src).
Proof.
  split; [|split].
  - rewrite maps_Copy_contents, lookup_union.
    destruct (contents h src !! k) as [v|]; [|by rewrite (left_id_L None union)].
    by destruct (contents h (Some dst) !! k).
  - intros l Hl. by apply maps_Copy_other.
  - intros Hsrc. destruct src as [l|]; [|done]. simpl.
    rewrite maps_Copy_other; [done | congruence].
Qed.

Lemma maps_Copy_lookup_witness :
  let h : heap :=
    <[2%positive := <["a" := "2"]> {["b" := "3"]}]>
      (<[1%positive := {["a" := "1"]}]> ∅) in
  maps_Copy 1%positive (Some 2%positive) h !! 2%positive = h !! 2%positive ∧
  contents (maps_Copy 1%positive (Some 2%positive) h) (Some 2%positive)
  = contents h (Some 2%positive).
Proof.
  intros h.
  destruct (maps_Copy_lookup 1%positive (Some 2%positive) h "a")
    as (_ & Hother & Hsrc).
  split; [apply Hother; discriminate | apply Hsrc; discriminate].
Defined.


(** ** Which map the accumulator holds, and which maps are written *)

(** X3. ExtraLabels is a reference the caller passed, never a copy: an
    accumulator that has a map keeps that very map, and one that has none
    ends up with the first non-nil map among the WithExtraLabels options, or
    with nil when there is none. *)
Theorem ExtraLabels_is_first_map (opts : list AnalysisRunOption) (st : State) :
  ExtraLabels (acc (Apply opts st))
  = match ExtraLabels (acc st) with
    | Some d => Some d
    | None => first_labels opts
    end.
Proof.
  revert st. induction opts as [|opt opts IH]; intros st; simpl.
  - by destruct (ExtraLabels (acc st)).
  - rewrite IH. destruct (ExtraLabels (acc st)) as [d|] eqn:E.
    + by rewrite (step_keeps_labels_ref opt st d E).
    + destruct opt as [o|o|o|o]; simpl; rewrite ?E; try done.
      unfold WithExtraLabels_ApplyToAnalysisRun. rewrite E. simpl.
      by destruct o.
Qed.

(** X4. Apply writes to no map of the store but the one the accumulator
    holds in the end: every other map, the ones carried by later
    WithExtraLabels options included, is left as it was. *)
Theorem Apply_writes_own_map_only
    (opts : list AnalysisRunOption) (st : State) (l : loc) :
  ExtraLabels (acc (Apply opts st)) ≠ Some l →
  mem (Apply opts st) !! l = mem st !! l.
Proof.
  revert st. induction opts as [|opt opts IH]; intros st Hl; simpl; [done|].
  simpl in Hl. rewrite IH by done.
  assert (Hstep : ExtraLabels (acc (ApplyToAnalysisRun opt st)) ≠ Some l).
  { intros E. apply Hl. by apply Apply_keeps_labels_ref. }
  destruct opt as [o|o|o|o]; simpl; try done.
  simpl in Hstep. unfold WithExtraLabels_ApplyToAnalysisRun in *.
  destruct (ExtraLabels (acc st)) as [d|] eqn:E; simpl in *; [|done].
  apply maps_Copy_other. congruence.
Qed.

Lemma Apply_writes_own_map_only_witness :
  let h : heap :=
    <[2%positive := <["a" := "2"]> {["b" := "3"]}]>
      (<[1%positive := {["a" := "1"]}]> ∅) in
  let opts := [WithExtraLabels (Some 1%positive); WithNamePrefix "p";
               WithExtraLabels (Some 2%positive)] in
  ExtraLabels (acc (Apply opts (fresh h))) ≠ Some 2%positive ∧
  mem (Apply opts (fresh h)) !! 2%positive = h !! 2%positive.
Proof.
  intros h opts.
  assert (Hl : ExtraLabels (acc (Apply opts (fresh h))) ≠ Some 2%positive)
    by discriminate.
  split; [exact Hl|].
  exact (Apply_writes_own_map_only opts (fresh h) 2%positive Hl).
Defined.

(** ** Labels over a whole sequence of options *)

Lemma merged_ext (d : loc) (h1 h2 : heap) (opts : list AnalysisRunOption)
    (base : labels) :
  (∀ l, l ≠ d → h1 !! l = h2 !! l) →
  forallb (λ opt, negb (carries_map d opt)) opts = true →
  merged h1 opts base = merged h2 opts base.
Proof.
  intros Hoff. revert base.
  induction opts as [|opt opts IH]; intros base Hfree; simpl; [done|].
  simpl in Hfree. apply andb_prop in Hfree as [Hopt Hfree].
  destruct opt as [o|o|[l|]|o]; simpl; try by apply IH.
  simpl in Hopt. apply negb_true_iff, Pos.eqb_neq in Hopt.
  rewrite (Hoff l Hopt). by apply IH.
Qed.

Lemma step_mem_off (opt : AnalysisRunOption) (st : State) (d l : loc) :
  ExtraLabels (acc st) = Some d → l ≠ d →
  mem (ApplyToAnalysisRun opt st) !! l = mem st !! l.
Proof.
  intros E Hl. destruct opt as [o|o|o|o]; simpl; try done.
  unfold WithExtraLabels_ApplyToAnalysisRun. rewrite E. simpl.
  by apply maps_Copy_other.
Qed.

(** X5. On an accumulator that holds a map, a sequence of options leaves in
    that map the entries of all the maps carried by its WithExtraLabels
    options laid over the entries it had, each map over the earlier ones, so
    that on a key several of them have the last one wins.  No option may
    carry the accumulator's own map. *)
Theorem labels_merged_in_order
    (opts : list AnalysisRunOption) (st : State) (d : loc) :
  ExtraLabels (acc st) = Some d →
  forallb (λ opt, negb (carries_map d opt)) opts = true →
  contents (mem (Apply opts st)) (ExtraLabels (acc (Apply opts st)))
  = merged (mem st) opts (contents (mem st) (Some d)).
Proof.
  intros E Hfree. rewrite (Apply_keeps_labels_ref opts st d E).
  revert st E Hfree. induction opts as [|opt opts IH]; intros st E Hfree; [done|].
  simpl in Hfree. apply andb_prop in Hfree as [Hopt Hfree].
  cbn [Apply].
  rewrite (IH (ApplyToAnalysisRun opt st) (step_keeps_labels_ref opt st d E) Hfree).
  rewrite (merged_ext d _ (mem st) opts _
             (λ l Hl, step_mem_off opt st d l E Hl) Hfree).
  destruct opt as [o|o|o|o]; try done.
  cbn [merged]. f_equal.
  pose proof (WithExtraLabels_contents o st) as Hc. simpl in Hc.
  rewrite E in Hc. rewrite <- Hc. f_equal.
  symmetry. by apply (step_keeps_labels_ref (WithExtraLabels o)).
Qed.

Lemma labels_merged_in_order_witness :
  let h : heap :=
    <[3%positive := {["a" := "9"]}]>
      (<[2%positive := <["a" := "2"]> {["b" := "3"]}]>
         (<[1%positive := {["z" := "0"]}]> ∅)) in
  let st := {| mem := h;
               acc := {| NamePrefix := ""; NameSuffix := "";
                         ExtraLabels := Some 1%positive; Owners := [] |} |} in
  let opts := [WithExtraLabels (Some 2%positive); WithNameSuffix "abc";
               WithExtraLabels None; WithExtraLabels (Some 3%positive)] in
  contents (mem (Apply opts st)) (ExtraLabels (acc (Apply opts st)))
  = {["a" := "9"]} ∪ (∅ ∪ ((<["a" := "2"]> {["b" := "3"]}) ∪ {["z" := "0"]})).
Proof.
  intros h st opts.
  rewrite (labels_merged_in_order opts st 1%positive);
    [by vm_compute | reflexivity | reflexivity].
Defined.

(** X6. No option ever removes a label: a key the accumulator's labels have
    is still there after any sequence of options (its value may have been
    overwritten). *)
Theorem labels_never_removed
    (opts : list AnalysisRunOption) (st : State) (k : string) :
  is_Some (contents (mem st) (ExtraLabels (acc st)) !! k) →
  is_Some (contents (mem (Apply opts st))
                    (ExtraLabels (acc (Apply opts st))) !! k).
Proof.
  revert st. induction opts as [|opt opts IH]; intros st Hk; [done|].
  cbn [Apply]. apply IH.
  destruct opt as [o|o|o|o]; try done.
  rewrite (WithExtraLabels_contents o st).
  apply lookup_union_is_Some. by right.
Qed.

Lemma labels_never_removed_witness :
  let h : heap :=
    <[2%positive := <["a" := "2"]> {["b" := "3"]}]>
      (<[1%positive := {["a" := "1"]}]> ∅) in
  let st := Apply [WithExtraLabels (Some 1%positive)] (fresh h) in
  let opts := [WithOwner {| APIVersion := "v1"; Kind := "Stage";
                            Reference := {| Namespace := "ns"; Name := "n" |};
                            BlockDeletion := false |};
               WithExtraLabels (Some 2%positive)] in
  is_Some (contents (mem st) (ExtraLabels (acc st)) !! "a") ∧
  is_Some (contents (mem (Apply opts st))
                    (ExtraLabels (acc (Apply opts st))) !! "a").
Proof.
  intros h st opts.
  assert (Hk : is_Some (contents (mem st) (ExtraLabels (acc st)) !! "a")).
  { exists "1". by vm_compute. }
  split; [exact Hk|].
  exact (labels_never_removed opts st "a" Hk).
Defined.

(** ** No run-time failure *)

Lemma slice_checked_in_range (s : string) (n : Z) :
  0 <= n → (len s >? n) = true → slice_checked s 0 n = Some (slice s 0 n).
Proof.
  intros Hn Hgt. unfold slice_checked.
  rewrite Z.gtb_ltb in Hgt. apply Z.ltb_lt in Hgt.
  assert (H1 : (0 <=? n) = true) by by apply Z.leb_le.
  assert (H2 : (n <=? len s) = true) by (apply Z.leb_le; lia).
  by rewrite H1, H2.
Qed.

Lemma maps_Copy_checked_non_nil (d : loc) (src : mapref) (h : heap) :
  maps_Copy_checked (Some d) src h = Some (maps_Copy d src h).
Proof.
  unfold maps_Copy_checked, maps_Copy. rewrite !map_fold_foldr.
  induction (map_to_list (contents h src)) as [|[k v] l IH]; simpl; [done|].
  by rewrite IH.
Qed.

Lemma step_checked (opt : AnalysisRunOption) (st : State) :
  ApplyToAnalysisRun_checked opt st = Some (ApplyToAnalysisRun opt st).
Proof.
  destruct opt as [o|o|o|o]; simpl; try done.
  - unfold WithNamePrefix_ApplyToAnalysisRun.
    destruct (len o >? maxNamePrefixLength) eqn:G; [|done].
    rewrite slice_checked_in_range; [done | by vm_compute | done].
  - unfold WithNameSuffix_ApplyToAnalysisRun.
    destruct (len o >? maxNameSuffixLength) eqn:G; [|done].
    rewrite slice_checked_in_range; [done | by vm_compute | done].
  - unfold WithExtraLabels_ApplyToAnalysisRun.
    destruct (ExtraLabels (acc st)) as [d|] eqn:E; [|done].
    by rewrite maps_Copy_checked_non_nil.
Qed.

(** X7. With Go's run-time checks made explicit, Apply on a valid
    accumulator and options of the four types never fails a check, and does
    what the unchecked reading does.  The tests in the methods are what
    ensures it: a slice up to an index beyond the string's length fails the
    bounds check, and maps.Copy of a non-empty map into a nil map fails the
    nil-map check. *)
Theorem Apply_never_panics (opts : list AnalysisRunOption) (st : State) :
  Apply_checked opts st = Some (Apply opts st) ∧
  (∀ (s : string) (hi : Z), len s < hi → slice_checked s 0 hi = None) ∧
  (∀ (src : mapref) (h : heap) (k v : string),
     contents h src !! k = Some v → maps_Copy_checked None src h = None).
Proof.
  split; [|split].
  - revert st. induction opts as [|opt opts IH]; intros st; simpl; [done|].
    rewrite step_checked. simpl. apply IH.
  - intros s hi Hlt. unfold slice_checked.
    assert (H : (hi <=? len s) = false) by (apply Z.leb_gt; lia).
    rewrite H. by rewrite andb_false_r.
  - intros src h k v Hk. unfold maps_Copy_checked. rewrite map_fold_foldr.
    destruct (map_to_list (contents h src)) as [|[k' v'] l] eqn:El.
    + apply map_to_list_empty_iff in El. rewrite El in Hk.
      by rewrite lookup_empty in Hk.
    + simpl. by destruct (foldr _ _ l).
Qed.

Lemma Apply_never_panics_witness :
  len "abc" < 5 ∧ slice_checked "abc" 0 5 = None ∧
  contents {[1%positive := {["a" := "1"]}]} (Some 1%positive) !! "a" = Some "1" ∧
  maps_Copy_checked None (Some 1%positive) {[1%positive := {["a" := "1"]}]} = None.
Proof.
  destruct (Apply_never_panics [] (fresh ∅)) as (_ & Hslice & Hcopy).
  assert (H1 : len "abc" < 5) by by vm_compute.
  assert (H2 : contents {[1%positive := {["a" := "1"]}]} (Some 1%positive) !! "a"
               = Some "1") by by vm_compute.
  split; [exact H1|]. split; [exact (Hslice "abc" 5 H1)|].
  split; [exact H2|]. exact (Hcopy _ _ "a" "1" H2).
Defined.

(** ** How options combine *)

(** X8. Two options of different types can be applied in either order: the
    accumulator and the store end up the same. *)
Theorem different_options_commute (a b : AnalysisRunOption) (st : State) :
  same_kind a b = false →
  ApplyToAnalysisRun a (ApplyToAnalysisRun b st)
  = ApplyToAnalysisRun b (ApplyToAnalysisRun a st).
Proof.
  intros Hk.
  destruct st as [h [pre suf [d|] own]];
    destruct a as [x|x|x|x], b as [y|y|y|y];
    try discriminate Hk; reflexivity.
Qed.

Lemma different_options_commute_witness :
  let h : heap := {[1%positive := {["a" := "1"]}]} in
  same_kind (WithNamePrefix "p") (WithExtraLabels (Some 1%positive)) = false ∧
  ApplyToAnalysisRun (WithNamePrefix "p")
    (ApplyToAnalysisRun (WithExtraLabels (Some 1%positive)) (fresh h))
  = ApplyToAnalysisRun (WithExtraLabels (Some 1%positive))
      (ApplyToAnalysisRun (WithNamePrefix "p") (fresh h)).
Proof.
  intros h. split; [reflexivity|].
  apply (different_options_commute (WithNamePrefix "p")
           (WithExtraLabels (Some 1%positive)) (fresh h)).
  reflexivity.
Defined.

(** X9. Truncation is idempotent: giving a prefix (suffix) option the very
    prefix (suffix) an earlier one left changes nothing.  The stored prefix
    has min(len s, 218) bytes and the stored suffix min(len s, 7). *)
Theorem truncation_idempotent (s : string) (st : State) :
  let st1 := ApplyToAnalysisRun (WithNamePrefix s) st in
  let st2 := ApplyToAnalysisRun (WithNameSuffix s) st in
  ApplyToAnalysisRun (WithNamePrefix (NamePrefix (acc st1))) st1 = st1 ∧
  ApplyToAnalysisRun (WithNameSuffix (NameSuffix (acc st2))) st2 = st2 ∧
  len (NamePrefix (acc st1)) = Z.min (len s) 218 ∧
  len (NameSuffix (acc st2)) = Z.min (len s) 7.
Proof.
  simpl. unfold WithNamePrefix_ApplyToAnalysisRun, WithNameSuffix_ApplyToAnalysisRun.
  simpl.
  destruct (guarded_slice s maxNamePrefixLength) as (Hple & Hpgt & Hpcap);
    [by vm_compute|].
  destruct (guarded_slice s maxNameSuffixLength) as (Hsle & Hsgt & Hscap);
    [by vm_compute|].
  set (p := if len s >? maxNamePrefixLength
            then slice s 0 maxNamePrefixLength else s) in *.
  set (q := if len s >? maxNameSuffixLength
            then slice s 0 maxNameSuffixLength else s) in *.
  destruct (guarded_slice p maxNamePrefixLength) as (Hp & _); [by vm_compute|].
  destruct (guarded_slice q maxNameSuffixLength) as (Hq & _); [by vm_compute|].
  rewrite (Hp Hpcap), (Hq Hscap).
  change maxNamePrefixLength with 218 in *.
  change maxNameSuffixLength with 7 in *.
  repeat split.
  - destruct (Z.le_gt_cases (len s) 218) as [H|H].
    + rewrite (Hple H). lia.
    + destruct (Hpgt H) as [-> _]. lia.
  - destruct (Z.le_gt_cases (len s) 7) as [H|H].
    + rewrite (Hsle H). lia.
    + destruct (Hsgt H) as [-> _]. lia.
Qed.

(** X10. The limit of 253 is reached: with a prefix of 218 bytes or more and
    a suffix of 7 bytes or more, the prefix, the two separators, the 26
    bytes of the identifier and the suffix add up to 253 exactly. *)
Theorem name_length_limit_reached (p s : string) (st : State) :
  218 <= len p → 7 <= len s →
  let o := acc (Apply [WithNamePrefix p; WithNameSuffix s] st) in
  len (NamePrefix o) + 1 + ulidLength + 1 + len (NameSuffix o) = 253.
Proof.
  intros Hp Hs o. subst o. simpl.
  destruct (guarded_slice p maxNamePrefixLength) as (Hple & Hpgt & _);
    [by vm_compute|].
  destruct (guarded_slice s maxNameSuffixLength) as (Hsle & Hsgt & _);
    [by vm_compute|].
  set (p' := if len p >? maxNamePrefixLength
             then slice p 0 maxNamePrefixLength else p) in *.
  set (s' := if len s >? maxNameSuffixLength
             then slice s 0 maxNameSuffixLength else s) in *.
  change maxNamePrefixLength with 218 in *.
  change maxNameSuffixLength with 7 in *.
  change ulidLength with 26.
  assert (Hp' : len p' = 218).
  { destruct (Z.le_gt_cases (len p) 218) as [H|H].
    - rewrite (Hple H). lia.
    - by destruct (Hpgt H). }
  assert (Hs' : len s' = 7).
  { destruct (Z.le_gt_cases (len s) 7) as [H|H].
    - rewrite (Hsle H). lia.
    - by destruct (Hsgt H). }
  lia.
Qed.

Lemma name_length_limit_reached_witness :
  let o := acc (Apply [WithNamePrefix (repeat_byte "p"%char 230);
                       WithNameSuffix "0123456789"] (fresh ∅)) in
  218 <= len (repeat_byte "p"%char 230) ∧ 7 <= len "0123456789" ∧
  len (NamePrefix o) + 1 + ulidLength + 1 + len (NameSuffix o) = 253.
Proof.
  intros o.
  assert (Hp : 218 <= len (repeat_byte "p"%char 230)) by by vm_compute.
  assert (Hs : 7 <= len "0123456789") by by vm_compute.
  split; [exact Hp|]. split; [exact Hs|].
  exact (name_length_limit_reached _ _ (fresh ∅) Hp Hs).
Defined.

(** ** The caps come from the options alone *)

Lemma step_prefix_cap (opt : AnalysisRunOption) (st : State) :
  is_WithNamePrefix opt = true
  ∨ len (NamePrefix (acc st)) <= maxNamePrefixLength →
  len (NamePrefix (acc (ApplyToAnalysisRun opt st))) <= maxNamePrefixLength.
Proof.
  intros H. destruct opt as [o|o|o|o]; simpl.
  - apply (guarded_slice o maxNamePrefixLength). by vm_compute.
  - by destruct H.
  - unfold WithExtraLabels_ApplyToAnalysisRun.
    destruct H as [?|H]; [done|]. by destruct (ExtraLabels (acc st)).
  - by destruct H.
Qed.

Lemma step_suffix_cap (opt : AnalysisRunOption) (st : State) :
  is_WithNameSuffix opt = true
  ∨ len (NameSuffix (acc st)) <= maxNameSuffixLength →
  len (NameSuffix (acc (ApplyToAnalysisRun opt st))) <= maxNameSuffixLength.
Proof.
  intros H. destruct opt as [o|o|o|o]; simpl.
  - by destruct H.
  - apply (guarded_slice o maxNameSuffixLength). by vm_compute.
  - unfold WithExtraLabels_ApplyToAnalysisRun.
    destruct H as [?|H]; [done|]. by destruct (ExtraLabels (acc st)).
  - by destruct H.
Qed.

(** X11. The caps are set by the options and by nothing else.  Whatever the
    accumulator held before, also a prefix or suffix written into the struct
    directly and too long, one prefix option among those applied leaves a
    prefix of at most 218 bytes and one suffix option a suffix of at most 7.
    Without a prefix (suffix) option Apply leaves NamePrefix (NameSuffix) as
    it found it, unchecked. *)
Theorem caps_set_by_options (opts : list AnalysisRunOption) (st : State) :
  (existsb is_WithNamePrefix opts = true →
     len (NamePrefix (acc (Apply opts st))) <= 218) ∧
  (existsb is_WithNameSuffix opts = true →
     len (NameSuffix (acc (Apply opts st))) <= 7) ∧
  (forallb (λ opt, negb (is_WithNamePrefix opt)) opts = true →
     NamePrefix (acc (Apply opts st)) = NamePrefix (acc st)) ∧
  (forallb (λ opt, negb (is_WithNameSuffix opt)) opts = true →
     NameSuffix (acc (Apply opts st)) = NameSuffix (acc st)).
Proof.
  assert (Hpre : ∀ l s0,
    existsb is_WithNamePrefix l = true
    ∨ len (NamePrefix (acc s0)) <= maxNamePrefixLength →
    len (NamePrefix (acc (Apply l s0))) <= maxNamePrefixLength).
  { induction l as [|opt l IH]; intros s0 H; simpl.
    - destruct H as [H|H]; [discriminate H | exact H].
    - apply IH. simpl in H.
      destruct (is_WithNamePrefix opt) eqn:Ho.
      + right. apply step_prefix_cap. by left.
      + destruct H as [H|H]; [by left|]. right. apply step_prefix_cap. by right. }
  assert (Hsuf : ∀ l s0,
    existsb is_WithNameSuffix l = true
    ∨ len (NameSuffix (acc s0)) <= maxNameSuffixLength →
    len (NameSuffix (acc (Apply l s0))) <= maxNameSuffixLength).
  { induction l as [|opt l IH]; intros s0 H; simpl.
    - destruct H as [H|H]; [discriminate H | exact H].
    - apply IH. simpl in H.
      destruct (is_WithNameSuffix opt) eqn:Ho.
      + right. apply step_suffix_cap. by left.
      + destruct H as [H|H]; [by left|]. right. apply step_suffix_cap. by right. }
  split; [|split; [|split]].
  - intros H. apply (Hpre opts st). by left.
  - intros H. apply (Hsuf opts st). by left.
  - apply Apply_no_prefix.
  - apply Apply_no_suffix.
Qed.

Lemma caps_set_by_options_witness :
  let long := {| mem := ∅;
                 acc := {| NamePrefix := repeat_byte "p"%char 300;
                           NameSuffix := "0123456789abcdef";
                           ExtraLabels := None; Owners := [] |} |} in
  let opts := [WithNamePrefix (repeat_byte "q"%char 250); WithExtraLabels None] in
  existsb is_WithNamePrefix opts = true ∧
  len (NamePrefix (acc (Apply opts long))) <= 218 ∧
  forallb (λ opt, negb (is_WithNameSuffix opt)) opts = true ∧
  NameSuffix (acc (Apply opts long)) = "0123456789abcdef".
Proof.
  intros long opts.
  destruct (caps_set_by_options opts long) as (Hp & _ & _ & Hs).
  split; [reflexivity|]. split; [apply Hp; reflexivity|].
  split; [reflexivity|]. apply Hs. reflexivity.
Defined.

End Rollouts.
